(** * BISS: circular-orbit kinematics of [solar_system.py] and
    [binary_star_simulator.py]

  The program is embedded twice.

  In the modules [solar_system] and [binary_star_simulator] Python's
  [float] values are idealised as the real numbers of the Standard
  Library: [+], [*], [/], [%], [math.sin], [math.cos] and [math.pi] are the
  exact operations.  General statements are proved there; they are worded
  so that rounding does not break them (non-strict bounds, closed ranges,
  raise paths, structure), or say that they are statements of exact
  arithmetic.

  In the module [Binary64] the functions that need no trigonometry are
  embedded on IEEE binary64 numbers, as CPython computes them, with Rocq's
  primitive floats.  They run, and show on concrete inputs where the
  program leaves the exact identities.

  In both, what Python makes partial stays partial: [/] and [%] raise
  [ZeroDivisionError] on a zero divisor, and a method that raises keeps
  the mutations it made before the raise. *)

From Stdlib Require Import Floats.
From Stdlib Require Import Reals Lra Lia ZArith Bool List Ascii String.
Set Warnings "-inexact-float".
Import ListNotations.

Open Scope R_scope.

(** ** Python numbers and exceptions *)

Module Py.

Inductive exn : Type :=
| ZeroDivisionError.

Inductive result (A : Type) : Type :=
| Return (a : A)
| Raise (e : exn).

Arguments Return {A} a.
Arguments Raise {A} e.

Definition bind {A B} (r : result A) (k : A -> result B) : result B :=
  match r with
  | Return a => k a
  | Raise e => Raise e
  end.

(** [x / y] on floats. *)
Definition truediv (x y : R) : result R :=
  if Req_dec_T y 0 then Raise ZeroDivisionError else Return (x / y).

(** [math.floor]. *)
Definition floor (x : R) : Z := Int_part x.

(** [x % y] on floats: the remainder takes the sign of the divisor. *)
Definition mod_ (x y : R) : result R :=
  if Req_dec_T y 0 then Raise ZeroDivisionError
  else Return (x - IZR (floor (x / y)) * y).


(** [int(x)] on a float: truncation toward zero. *)
Definition int_ (x : R) : Z :=
  if Rle_dec 0 x then floor x else (- floor (- x))%Z.

(** The position [l[i]] denotes in a sequence of length [n]: a negative
    index counts from the end, and [None] stands for [IndexError]. *)
Definition index (n : nat) (i : Z) : option nat :=
  if ((0 <=? i) && (i <? Z.of_nat n))%Z then Some (Z.to_nat i)
  else if ((- Z.of_nat n <=? i) && (i <? 0))%Z then Some (Z.to_nat (Z.of_nat n + i))
  else None.

(** [l[i]] *)
Definition getitem {A} (l : list A) (i : Z) : option A :=
  match index (List.length l) i with
  | Some k => nth_error l k
  | None => None
  end.

Fixpoint replace_nth {A} (k : nat) (v : A) (l : list A) : list A :=
  match l, k with
  | [], _ => []
  | _ :: rest, O => v :: rest
  | x :: rest, S k' => x :: replace_nth k' v rest
  end.

(** [l[i] = v] *)
Definition setitem {A} (l : list A) (i : Z) (v : A) : option (list A) :=
  match index (List.length l) i with
  | Some k => Some (replace_nth k v l)
  | None => None
  end.

(** Sequencing of steps that may raise [IndexError]. *)
Definition and_then {A B} (o : option A) (k : A -> option B) : option B :=
  match o with
  | Some a => k a
  | None => None
  end.

End Py.

Export Py.

Declare Scope result_scope.
Delimit Scope result_scope with result.
Notation "x <- e ;; k" := (Py.bind e (fun x => k))
(at level 61, e at next level, right associativity) : result_scope.

(** ** Methods: a state and exception monad

  A method runs on the object it is called on.  The object after the call
  is returned next to the outcome, also when the outcome is a raise. *)

Module Method.

Definition t (S A : Type) : Type := S -> result A * S.

Definition ret {S A} (a : A) : t S A := fun s => (Return a, s).

Definition bind {S A B} (m : t S A) (k : A -> t S B) : t S B :=
  fun s =>
    match m s with
    | (Return a, s') => k a s'
    | (Raise e, s') => (Raise e, s')
    end.

Definition get {S} : t S S := fun s => (Return s, s).

Definition modify {S} (f : S -> S) : t S unit := fun s => (Return tt, f s).

Definition lift {S A} (r : result A) : t S A := fun s => (r, s).

(** Run a method of a component on that component of the state. *)
Definition zoom {S T A} (proj : S -> T) (upd : S -> T -> S) (m : t T A)
  : t S A :=
  fun s => let (r, x) := m (proj s) in (r, upd s x).

(** [for x in l: body(x)], where [body] mutates the object [x]. *)
Fixpoint for_each {S} (body : t S unit) (l : list S) : result unit * list S :=
  match l with
  | [] => (Return tt, [])
  | x :: rest =>
      match body x with
      | (Return _, x') =>
          let (r, rest') := for_each body rest in (r, x' :: rest')
      | (Raise e, x') => (Raise e, x' :: rest)
      end
  end.

(** The object after the call. *)
Definition exec {S A} (m : t S A) (s : S) : S := snd (m s).

(** The outcome of the call. *)
Definition outcome {S A} (m : t S A) (s : S) : result A := fst (m s).

End Method.

Declare Scope index_scope.
Delimit Scope index_scope with index.
Notation "x <- e ;; k" := (Py.and_then e (fun x => k))
(at level 61, e at next level, right associativity) : index_scope.

Declare Scope method_scope.
Delimit Scope method_scope with method.
Notation "x <- e ;; k" := (Method.bind e (fun x => k))
(at level 61, e at next level, right associativity) : method_scope.
Notation "e ;; k" := (Method.bind e (fun _ => k))
(at level 61, right associativity) : method_scope.

(** ** solar_system.py *)

Module solar_system.

Record CelestialBody : Type := mkCelestialBody {
  name : string;
  mass : R;
  distance : R;
  orbital_period : R;
  radius : R;
  color : string;
  angle : R
}.

Definition set_angle (a : R) (self : CelestialBody) : CelestialBody :=
  {| name := name self; mass := mass self; distance := distance self;
     orbital_period := orbital_period self; radius := radius self;
     color := color self; angle := a |}.

(** [CelestialBody.__init__] *)
Definition CelestialBody_init (name : string) (mass distance orbital_period radius : R)
    (color : string) : CelestialBody :=
  {| name := name; mass := mass; distance := distance;
     orbital_period := orbital_period; radius := radius;
     color := color; angle := 0 |}.

(** [CelestialBody.update_position] *)
Definition update_position (time_step : R) : Method.t CelestialBody unit :=
  (self <- Method.get ;;
   angular_velocity <- Method.lift (truediv (2 * PI) (orbital_period self)) ;;
   Method.modify (set_angle (angle self + angular_velocity * time_step)) ;;
   self <- Method.get ;;
   a <- Method.lift (mod_ (angle self) (2 * PI)) ;;
   Method.modify (set_angle a))%method.

(** [CelestialBody.get_position] *)
Definition get_position (self : CelestialBody) : R * R :=
  let x := distance self * cos (angle self) in
  let y := distance self * sin (angle self) in
  (x, y).

(** [CelestialBody.get_velocity] *)
Definition get_velocity (self : CelestialBody) : result R :=
  let distance_km := distance self * 149597870.7 in
  let period_seconds := orbital_period self * 24 * 3600 in
  (velocity <- truediv (2 * PI * distance_km) period_seconds ;;
   Return velocity)%result.

Record SolarSystem : Type := mkSolarSystem {
  bodies : list CelestialBody;
  time_elapsed : R;
  sun : CelestialBody
}.

Definition set_bodies (self : SolarSystem) (l : list CelestialBody) : SolarSystem :=
  {| bodies := l; time_elapsed := time_elapsed self; sun := sun self |}.

Definition set_time_elapsed (t : R) (self : SolarSystem) : SolarSystem :=
  {| bodies := bodies self; time_elapsed := t; sun := sun self |}.

Definition Sun : CelestialBody :=
  CelestialBody_init "Sun" 1.989e30 0 0 696340 "yellow".
Definition Mercury : CelestialBody :=
  CelestialBody_init "Mercury" 3.285e23 0.39 88 2439.7 "gray".
Definition Venus : CelestialBody :=
  CelestialBody_init "Venus" 4.867e24 0.72 225 6051.8 "orange".
Definition Earth : CelestialBody :=
  CelestialBody_init "Earth" 5.972e24 1.0 365.25 6371 "blue".
Definition Mars : CelestialBody :=
  CelestialBody_init "Mars" 6.39e23 1.52 687 3389.5 "red".
Definition Jupiter : CelestialBody :=
  CelestialBody_init "Jupiter" 1.898e27 5.2 4333 69911 "orange".
Definition Saturn : CelestialBody :=
  CelestialBody_init "Saturn" 5.683e26 9.54 10759 58232 "yellow".

(** [SolarSystem.setup_solar_system]: sets the [sun] attribute and appends
    the six planets to the [bodies] it finds. *)
Definition setup_solar_system (bodies0 : list CelestialBody) (time_elapsed0 : R)
  : SolarSystem :=
  {| sun := Sun;
     bodies := bodies0 ++ [Mercury] ++ [Venus] ++ [Earth] ++ [Mars]
                       ++ [Jupiter] ++ [Saturn];
     time_elapsed := time_elapsed0 |}.

(** [SolarSystem.__init__] *)
Definition SolarSystem_init : SolarSystem := setup_solar_system [] 0.

(** [SolarSystem.update] *)
Definition update (time_step : R) : Method.t SolarSystem unit :=
  (Method.zoom bodies set_bodies (Method.for_each (update_position time_step)) ;;
   self <- Method.get ;;
   Method.modify (set_time_elapsed (time_elapsed self + time_step)))%method.

(** A session: [update] called with each step in turn.  In the menu loop of
    [main] an exception of one call is caught and the next call runs on the
    object as the failed call left it. *)
Definition updates (steps : list R) (s : SolarSystem) : SolarSystem :=
  fold_left (fun s time_step => Method.exec (update time_step) s) steps s.


(** [SolarSystem.display_simple_visualization]: the rows of the grid it
    prints, [None] if an [IndexError] escapes. *)
Definition size : Z := 40.

Definition blank_grid : list (list ascii) :=
  repeat (repeat " "%char (Z.to_nat size)) (Z.to_nat size).

(** [grid[row][column] = c] *)
Definition set_cell (grid : list (list ascii)) (row column : Z) (c : ascii)
  : option (list (list ascii)) :=
  (cells <- getitem grid row ;;
   cells' <- setitem cells column c ;;
   setitem grid row cells')%index.

(** The cell a body falls in. *)
Definition grid_cell (body : CelestialBody) : Z * Z :=
  let center := (size / 2)%Z in
  let scale := 3 in
  let (x, y) := get_position body in
  let grid_x := int_ (IZR center + x * scale) in
  let grid_y := int_ (IZR center + y * scale) in
  (grid_x, grid_y).

(** The bounds check of the loop. *)
Definition in_bounds (cell : Z * Z) : bool :=
  let (grid_x, grid_y) := cell in
  ((0 <=? grid_x) && (grid_x <? size) && ((0 <=? grid_y) && (grid_y <? size)))%Z.

(** One turn of the loop over the bodies. *)
Definition place (grid : list (list ascii)) (body : CelestialBody)
  : option (list (list ascii)) :=
  let (grid_x, grid_y) := grid_cell body in
  if in_bounds (grid_x, grid_y) then
    (initial <- String.get 0 (name body) ;;
     set_cell grid grid_y grid_x initial)%index
  else Some grid.

Fixpoint place_all (grid : list (list ascii)) (l : list CelestialBody)
  : option (list (list ascii)) :=
  match l with
  | [] => Some grid
  | body :: rest => (grid' <- place grid body ;; place_all grid' rest)%index
  end.

Definition display_simple_visualization (self : SolarSystem)
  : option (list (list ascii)) :=
  let center := (size / 2)%Z in
  (grid <- set_cell blank_grid center center "*"%char ;;
   place_all grid (bodies self))%index.




(** The menu loop of [main]: what one turn does to the solar system for the
    stripped choice read.  Choices 1, 5, 6 and 7 only display; an exception
    of a turn is caught and the loop goes on.  A keyboard interrupt, which
    ends the loop like choice 0, is not among the choices. *)
Inductive session : Type :=
| Running (solar_system : SolarSystem)
| Exited (solar_system : SolarSystem).

Definition main_turn (choice : string) (solar_system : SolarSystem) : session :=
  if (choice =? "0")%string then Exited solar_system
  else if (choice =? "2")%string then
    Running (Method.exec (update 1) solar_system)
  else if (choice =? "3")%string then
    Running (Method.exec (update 30) solar_system)
  else if (choice =? "4")%string then
    Running (Method.exec (update 365) solar_system)
  else Running solar_system.

Fixpoint main_loop (choices : list string) (solar_system : SolarSystem) : session :=
  match choices with
  | [] => Running solar_system
  | choice :: rest =>
      match main_turn choice solar_system with
      | Running solar_system' => main_loop rest solar_system'
      | Exited solar_system' => Exited solar_system'
      end
  end.

Definition state_of (r : session) : SolarSystem :=
  match r with
  | Running solar_system => solar_system
  | Exited solar_system => solar_system
  end.

End solar_system.

(** ** binary_star_simulator.py *)

Module binary_star_simulator.

Record BinaryStarSystem : Type := mkBinaryStarSystem {
  mass1 : R;
  mass2 : R;
  semi_major_axis : R;
  period : R;
  total_mass : R;
  mass_ratio : R;
  r1 : R;
  r2 : R;
  omega : R;
  v1 : R;
  v2 : R;
  v1_kms : R;
  v2_kms : R
}.

(** [BinaryStarSystem.__init__] on Python floats, which is what [main],
    [get_user_input], the examples and the tests pass.  The attributes are
    assigned in the order of the source, so the first zero divisor met
    raises. *)
Definition BinaryStarSystem_init (mass1 mass2 semi_major_axis period : R)
  : result BinaryStarSystem :=
  (let total_mass := mass1 + mass2 in
   mass_ratio <- truediv mass2 mass1 ;;
   r1 <- truediv (semi_major_axis * mass2) total_mass ;;
   r2 <- truediv (semi_major_axis * mass1) total_mass ;;
   omega <- truediv (2 * PI) period ;;
   let v1 := r1 * omega in
   let v2 := r2 * omega in
   let v1_kms := v1 * 1731.5 in
   let v2_kms := v2 * 1731.5 in
   Return {| mass1 := mass1; mass2 := mass2;
             semi_major_axis := semi_major_axis; period := period;
             total_mass := total_mass; mass_ratio := mass_ratio;
             r1 := r1; r2 := r2; omega := omega; v1 := v1; v2 := v2;
             v1_kms := v1_kms; v2_kms := v2_kms |})%result.

(** [BinaryStarSystem.calculate_positions] at one time; on an array numpy
    applies the same expressions to every element. *)
Definition calculate_positions (self : BinaryStarSystem) (times : R)
  : R * R * R * R :=
  let theta := omega self * times in
  let x1 := r1 self * cos theta in
  let y1 := r1 self * sin theta in
  let x2 := - r2 self * cos theta in
  let y2 := - r2 self * sin theta in
  (x1, y1, x2, y2).



(** Default value of the parameter [wavelength]. *)
Definition wavelength_default : R := 656.3.

(** [BinaryStarSystem.calculate_doppler_shift] *)
Definition calculate_doppler_shift (self : BinaryStarSystem) (rv : R)
    (wavelength : R) : result R :=
  (let c := 299792.458 in
   q <- truediv rv c ;;
   Return (wavelength * (1 + q)))%result.




End binary_star_simulator.

(** ** The program on binary64 numbers *)

Module Binary64.

Local Open Scope float_scope.

(** [math.pi] and [numpy.pi] *)
Definition pi : float := 3.141592653589793.

(** [x / y] on floats. *)
Definition truediv (x y : float) : result float :=
  if y =? 0 then Raise ZeroDivisionError else Return (x / y).

(** C's [fmod]: the remainder of the exact division truncated toward zero,
    which is a binary64 number and takes the sign of [x].  It is computed on
    the integer mantissas at the smaller of the two exponents. *)
Definition fmod (x y : float) : float :=
  match Prim2SF x, Prim2SF y with
  | S754_nan, _ | _, S754_nan => nan
  | S754_infinity _, _ => nan
  | _, S754_zero _ => nan
  | S754_zero _, _ => x
  | S754_finite _ _ _, S754_infinity _ => x
  | S754_finite sx mx ex, S754_finite _ my ey =>
      let e := Z.min ex ey in
      let r := Z.modulo (Z.pos mx * 2 ^ (ex - e)) (Z.pos my * 2 ^ (ey - e)) in
      match r with
      | Z.pos m => SF2Prim (S754_finite sx m e)
      | _ => SF2Prim (S754_zero sx)
      end
  end.

(** [x % y] on floats, as CPython's [float_rem]: [fmod], then the divisor is
    added when the signs differ, and that sum is rounded. *)
Definition mod_ (x y : float) : result float :=
  if y =? 0 then Raise ZeroDivisionError
  else
    let m := fmod x y in
    if m =? 0 then Return (if get_sign y then PrimFloat.neg_zero else PrimFloat.zero)
    else if xorb (y <? 0) (m <? 0) then Return (m + y)
    else Return m.

Record CelestialBody : Type := mkCelestialBody {
  name : string;
  mass : float;
  distance : float;
  orbital_period : float;
  radius : float;
  color : string;
  angle : float
}.

Definition set_angle (a : float) (self : CelestialBody) : CelestialBody :=
  {| name := name self; mass := mass self; distance := distance self;
     orbital_period := orbital_period self; radius := radius self;
     color := color self; angle := a |}.

(** [CelestialBody.__init__] *)
Definition CelestialBody_init (name : string)
    (mass distance orbital_period radius : float) (color : string)
  : CelestialBody :=
  {| name := name; mass := mass; distance := distance;
     orbital_period := orbital_period; radius := radius;
     color := color; angle := 0 |}.

(** [CelestialBody.update_position] *)
Definition update_position (time_step : float) : Method.t CelestialBody unit :=
  (self <- Method.get ;;
   angular_velocity <- Method.lift (truediv (2 * pi) (orbital_period self)) ;;
   Method.modify (set_angle (angle self + angular_velocity * time_step)) ;;
   self <- Method.get ;;
   a <- Method.lift (mod_ (angle self) (2 * pi)) ;;
   Method.modify (set_angle a))%method.

Definition Earth : CelestialBody :=
  CelestialBody_init "Earth" 5.972e24 1.0 365.25 6371 "blue".

Record BinaryStarSystem : Type := mkBinaryStarSystem {
  mass1 : float;
  mass2 : float;
  semi_major_axis : float;
  period : float;
  total_mass : float;
  mass_ratio : float;
  r1 : float;
  r2 : float;
  omega : float;
  v1 : float;
  v2 : float;
  v1_kms : float;
  v2_kms : float
}.

(** [BinaryStarSystem.__init__] *)
Definition BinaryStarSystem_init (mass1 mass2 semi_major_axis period : float)
  : result BinaryStarSystem :=
  (let total_mass := mass1 + mass2 in
   mass_ratio <- truediv mass2 mass1 ;;
   r1 <- truediv (semi_major_axis * mass2) total_mass ;;
   r2 <- truediv (semi_major_axis * mass1) total_mass ;;
   omega <- truediv (2 * pi) period ;;
   let v1 := r1 * omega in
   let v2 := r2 * omega in
   let v1_kms := v1 * 1731.5 in
   let v2_kms := v2 * 1731.5 in
   Return {| mass1 := mass1; mass2 := mass2;
             semi_major_axis := semi_major_axis; period := period;
             total_mass := total_mass; mass_ratio := mass_ratio;
             r1 := r1; r2 := r2; omega := omega; v1 := v1; v2 := v2;
             v1_kms := v1_kms; v2_kms := v2_kms |})%result.

(** [BinaryStarSystem.calculate_doppler_shift]; it does not use [self]. *)
Definition calculate_doppler_shift (rv : float) (wavelength : float)
  : result float :=
  (let c := 299792.458 in
   q <- truediv rv c ;;
   Return (wavelength * (1 + q)))%result.

(** [a < b] as Python decides it. *)
Definition lt (a b : float) : Prop := (a <? b) = true.

(** [a == b] as Python decides it. *)
Definition eq (a b : float) : Prop := (a =? b) = true.

End Binary64.

(** ** Vocabulary of the properties *)

Import solar_system binary_star_simulator.


(** The value [x % (2 * math.pi)] returns. *)
Definition wrap (x : R) : R := x - IZR (floor (x / (2 * PI))) * (2 * PI).

(** The angular velocity [update_position] computes for a body. *)
Definition angular_velocity (b : CelestialBody) : R :=
  2 * PI / orbital_period b.

(** All four constructor arguments are strictly positive. *)
Definition valid_parameters (mass1 mass2 semi_major_axis period : R) : Prop :=
  0 < mass1 /\ 0 < mass2 /\ 0 < semi_major_axis /\ 0 < period.

(** Both coordinates of a position are within [eps] of the given point. *)
Definition position_within (eps : R) (p q : R * R) : Prop :=
  Rabs (fst p - fst q) < eps /\ Rabs (snd p - snd q) < eps.

(** A body that orbits backwards, with a period of four days. *)
Definition retrograde : CelestialBody :=
  CelestialBody_init "Retrograde" 1 1 (-4) 1 "white".

(** Everything a body has but its angle. *)
Definition orbit_of (b : CelestialBody) : string * R * R * R * R * string :=
  (name b, mass b, distance b, orbital_period b, radius b, color b).

(** Every body of the system has its angle within one turn. *)
Definition angles_wrapped (s : SolarSystem) : Prop :=
  Forall (fun b => 0 <= angle b < 2 * PI) (bodies s).

(** A grid of [size] rows of [size] cells. *)
Definition square (grid : list (list ascii)) : Prop :=
  List.length grid = Z.to_nat size /\
  Forall (fun cells => List.length cells = Z.to_nat size) grid.

(** The first letters of the names of the bodies. *)
Definition initials (l : list CelestialBody) : list ascii :=
  flat_map (fun b => match String.get 0 (name b) with
                     | Some c => [c]
                     | None => []
                     end) l.

(** The days a menu choice advances the simulation by. *)
Definition choice_days (choice : string) : R :=
  if (choice =? "2")%string then 1
  else if (choice =? "3")%string then 30
  else if (choice =? "4")%string then 365
  else 0.

(** The days a run of menu choices advances the simulation by, up to the
    first choice of 0. *)
Fixpoint session_days (choices : list string) : R :=
  match choices with
  | [] => 0
  | choice :: rest =>
      if (choice =? "0")%string then 0
      else choice_days choice + session_days rest
  end.

(** Every body of the system has its angle between 0 and a full turn, both
    included. *)
Definition angles_within_turn (s : SolarSystem) : Prop :=
  Forall (fun b => 0 <= angle b <= 2 * PI) (bodies s).

(** ** Arithmetic of [/], [math.floor] and [%] *)

Lemma two_PI_pos : 0 < 2 * PI.
Proof. pose proof PI_RGT_0. lra. Qed.

Lemma two_PI_neq_0 : 2 * PI <> 0.
Proof. pose proof two_PI_pos. lra. Qed.

Lemma truediv_nonzero (x y : R) : y <> 0 -> truediv x y = Return (x / y).
Proof.
  intros Hy. unfold truediv. destruct (Req_dec_T y 0); [contradiction | reflexivity].
Qed.

Lemma truediv_zero (x : R) : truediv x 0 = Raise ZeroDivisionError.
Proof.
  unfold truediv. destruct (Req_dec_T 0 0) as [_ | Hn]; [reflexivity | now elim Hn].
Qed.

Lemma mod_two_PI (x : R) : mod_ x (2 * PI) = Return (wrap x).
Proof.
  unfold mod_. destruct (Req_dec_T (2 * PI) 0) as [H0 | _].
  - elim (two_PI_neq_0 H0).
  - reflexivity.
Qed.

Lemma floor_bounds (x : R) : IZR (floor x) <= x < IZR (floor x) + 1.
Proof.
  unfold floor. destruct (base_Int_part x) as [Hle Hgt]. lra.
Qed.

Lemma floor_unique (x : R) (k : Z) : IZR k <= x < IZR k + 1 -> floor x = k.
Proof.
  intros [Hle Hlt]. unfold floor, Int_part.
  assert (Hup : (k + 1)%Z = up x).
  { apply tech_up; rewrite plus_IZR; simpl; lra. }
  rewrite <- Hup. lia.
Qed.

Lemma floor_plus_IZR (x : R) (k : Z) : floor (x + IZR k) = (floor x + k)%Z.
Proof.
  apply floor_unique. rewrite plus_IZR.
  pose proof (floor_bounds x). lra.
Qed.

Lemma wrap_range (x : R) : 0 <= wrap x < 2 * PI.
Proof.
  unfold wrap.
  pose proof two_PI_pos as Hp.
  pose proof (floor_bounds (x / (2 * PI))) as [Hlo Hhi].
  set (k := IZR (floor (x / (2 * PI)))) in *.
  assert (Hx : x = x / (2 * PI) * (2 * PI)) by (field; lra).
  split.
  - apply Rmult_le_compat_r with (r := 2 * PI) in Hlo; lra.
  - apply Rmult_lt_compat_r with (r := 2 * PI) in Hhi; lra.
Qed.

Lemma wrap_plus_turns (x : R) (k : Z) : wrap (x + IZR k * (2 * PI)) = wrap x.
Proof.
  unfold wrap.
  replace ((x + IZR k * (2 * PI)) / (2 * PI)) with (x / (2 * PI) + IZR k)
    by (field; apply PI_neq0).
  rewrite floor_plus_IZR, plus_IZR. ring.
Qed.

Lemma wrap_plus_wrap (x y : R) : wrap (wrap x + y) = wrap (x + y).
Proof.
  unfold wrap at 2.
  replace (x - IZR (floor (x / (2 * PI))) * (2 * PI) + y)
    with (x + y + IZR (- floor (x / (2 * PI))) * (2 * PI))
    by (rewrite opp_IZR; ring).
  apply wrap_plus_turns.
Qed.

Lemma wrap_small (x : R) : 0 <= x < 2 * PI -> wrap x = x.
Proof.
  intros [Hlo Hhi]. unfold wrap.
  pose proof two_PI_pos as Hp.
  rewrite (floor_unique (x / (2 * PI)) 0).
  - simpl. ring.
  - simpl. split.
    + apply Rmult_le_reg_r with (r := 2 * PI); [lra |].
      replace (x / (2 * PI) * (2 * PI)) with x by (field; lra). lra.
    + apply Rmult_lt_reg_r with (r := 2 * PI); [lra |].
      replace (x / (2 * PI) * (2 * PI)) with x by (field; lra). lra.
Qed.

(** ** [CelestialBody.update_position] *)

Lemma update_position_returns (b : CelestialBody) (time_step : R) :
  orbital_period b <> 0 ->
  update_position time_step b =
    (Return tt, set_angle (wrap (angle b + angular_velocity b * time_step)) b).
Proof.
  intros Hp.
  unfold update_position, Method.bind, Method.get, Method.lift, Method.modify.
  rewrite (truediv_nonzero _ _ Hp). cbn [set_angle angle].
  rewrite mod_two_PI. reflexivity.
Qed.

Lemma update_position_raises (b : CelestialBody) (time_step : R) :
  orbital_period b = 0 ->
  update_position time_step b = (Raise ZeroDivisionError, b).
Proof.
  intros Hp.
  unfold update_position, Method.bind, Method.get, Method.lift.
  rewrite Hp, truediv_zero. reflexivity.
Qed.

Lemma update_position_keeps_period (b : CelestialBody) (time_step : R) :
  orbital_period (Method.exec (update_position time_step) b) = orbital_period b.
Proof.
  unfold Method.exec.
  destruct (Req_dec_T (orbital_period b) 0) as [H0 | Hn].
  - rewrite (update_position_raises _ _ H0). reflexivity.
  - rewrite (update_position_returns _ _ Hn). reflexivity.
Qed.

Lemma update_position_angle_range (b : CelestialBody) (time_step : R) :
  0 <= angle b < 2 * PI ->
  0 <= angle (Method.exec (update_position time_step) b) < 2 * PI.
Proof.
  intros Hb. unfold Method.exec.
  destruct (Req_dec_T (orbital_period b) 0) as [H0 | Hn].
  - rewrite (update_position_raises _ _ H0). exact Hb.
  - rewrite (update_position_returns _ _ Hn). apply wrap_range.
Qed.


(** ** The loop of [SolarSystem.update] *)

Lemma for_each_returns (time_step : R) (l : list CelestialBody) :
  Forall (fun b => orbital_period b <> 0) l ->
  Method.for_each (update_position time_step) l =
    (Return tt, map (Method.exec (update_position time_step)) l).
Proof.
  induction 1 as [| b l Hb _ IH].
  - reflexivity.
  - cbn [Method.for_each map]. unfold Method.exec at 1.
    rewrite (update_position_returns _ _ Hb), IH. reflexivity.
Qed.

Lemma for_each_raises (time_step : R) (l : list CelestialBody) :
  Exists (fun b => orbital_period b = 0) l ->
  fst (Method.for_each (update_position time_step) l) = Raise ZeroDivisionError.
Proof.
  induction l as [| b l IH]; intros Hex.
  - inversion Hex.
  - cbn [Method.for_each].
    destruct (Req_dec_T (orbital_period b) 0) as [H0 | Hn].
    + rewrite (update_position_raises _ _ H0). reflexivity.
    + rewrite (update_position_returns _ _ Hn).
      inversion Hex as [? ? Hb | ? ? Hl]; subst; [contradiction |].
      specialize (IH Hl).
      destruct (Method.for_each (update_position time_step) l) as [r rest'].
      exact IH.
Qed.

Lemma update_returns (s : SolarSystem) (time_step : R) :
  Forall (fun b => orbital_period b <> 0) (bodies s) ->
  update time_step s =
    (Return tt,
     {| bodies := map (Method.exec (update_position time_step)) (bodies s);
        time_elapsed := time_elapsed s + time_step;
        sun := sun s |}).
Proof.
  intros Hall.
  unfold update, Method.bind, Method.zoom, Method.get, Method.modify.
  rewrite (for_each_returns _ _ Hall). reflexivity.
Qed.

Lemma update_raises (s : SolarSystem) (time_step : R) :
  Exists (fun b => orbital_period b = 0) (bodies s) ->
  Method.outcome (update time_step) s = Raise ZeroDivisionError /\
  time_elapsed (Method.exec (update time_step) s) = time_elapsed s /\
  sun (Method.exec (update time_step) s) = sun s.
Proof.
  intros Hex. pose proof (for_each_raises time_step _ Hex) as Hr.
  unfold Method.outcome, Method.exec, update, Method.bind, Method.zoom.
  destruct (Method.for_each (update_position time_step) (bodies s)) as [r l'].
  cbn [fst] in Hr. subst r. repeat split.
Qed.

Lemma periods_dec (l : list CelestialBody) :
  Forall (fun b => orbital_period b <> 0) l \/
  Exists (fun b => orbital_period b = 0) l.
Proof.
  induction l as [| b l [IH | IH]].
  - left. constructor.
  - destruct (Req_dec_T (orbital_period b) 0) as [H0 | Hn].
    + right. now constructor.
    + left. now constructor.
  - right. now constructor 2.
Qed.

Lemma update_keeps_sun (s : SolarSystem) (time_step : R) :
  sun (Method.exec (update time_step) s) = sun s.
Proof.
  destruct (periods_dec (bodies s)) as [Hall | Hex].
  - unfold Method.exec. rewrite (update_returns _ _ Hall). reflexivity.
  - apply (update_raises _ _ Hex).
Qed.

Lemma update_keeps_periods (s : SolarSystem) (time_step : R) :
  Forall (fun b => 0 < orbital_period b) (bodies s) ->
  Forall (fun b => 0 < orbital_period b) (bodies (Method.exec (update time_step) s)).
Proof.
  intros Hpos.
  assert (Hall : Forall (fun b => orbital_period b <> 0) (bodies s)).
  { eapply Forall_impl; [| exact Hpos]. cbn. intros b Hb. lra. }
  unfold Method.exec. rewrite (update_returns _ _ Hall). cbn [snd bodies].
  apply Forall_map. eapply Forall_impl; [| exact Hpos].
  cbn. intros b Hb. now rewrite update_position_keeps_period.
Qed.

Lemma updates_keep_periods (steps : list R) :
  forall s : SolarSystem,
    Forall (fun b => 0 < orbital_period b) (bodies s) ->
    Forall (fun b => 0 < orbital_period b) (bodies (updates steps s)).
Proof.
  induction steps as [| time_step steps IH]; intros s Hs.
  - exact Hs.
  - apply IH, update_keeps_periods, Hs.
Qed.

Lemma updates_keep_sun (steps : list R) :
  forall s : SolarSystem, sun (updates steps s) = sun s.
Proof.
  induction steps as [| time_step steps IH]; intros s.
  - reflexivity.
  - cbn [updates fold_left]. fold (updates steps (Method.exec (update time_step) s)).
    rewrite IH. apply update_keeps_sun.
Qed.

Lemma planets_have_positive_periods :
  Forall (fun b => 0 < orbital_period b) (bodies SolarSystem_init).
Proof.
  unfold SolarSystem_init, setup_solar_system. cbn [bodies app].
  repeat constructor; cbn; lra.
Qed.

(** ** Properties of the solar system *)

(** C2, as the code has it: [update_position] has no guard on
    [orbital_period].  A period of zero makes the call raise
    [ZeroDivisionError] before anything is assigned, so the body (and its
    angle) is unchanged, and [SolarSystem.update] passes the exception on:
    with such a body among [bodies] it raises and leaves [time_elapsed] as
    it was.  A negative period is not skipped: the angle becomes
    [(angle + (2 * pi / orbital_period) * time_step) % (2 * pi)]. *)
Theorem C2_update_position_has_no_period_guard
    (b : CelestialBody) (time_step : R) :
  (orbital_period b = 0 ->
     update_position time_step b = (Raise ZeroDivisionError, b) /\
     forall s : SolarSystem,
       In b (bodies s) ->
       Method.outcome (update time_step) s = Raise ZeroDivisionError /\
       time_elapsed (Method.exec (update time_step) s) = time_elapsed s) /\
  (orbital_period b < 0 ->
     update_position time_step b =
       (Return tt, set_angle (wrap (angle b + angular_velocity b * time_step)) b)).
Proof.
  split.
  - intros H0. split; [now apply update_position_raises |].
    intros s Hin.
    assert (Hex : Exists (fun b' => orbital_period b' = 0) (bodies s)).
    { apply Exists_exists. now exists b. }
    destruct (update_raises s time_step Hex) as (Hout & Htime & _).
    now split.
  - intros Hneg. apply update_position_returns. lra.
Qed.

(** C6, in exact arithmetic: for a body with a positive period,
    [update_position t1] followed by [update_position t2] and a single
    [update_position (t1 + t2)] all return, and leave the same angle. *)
Theorem C6_update_position_additive (b : CelestialBody) (t1 t2 : R) :
  0 < orbital_period b ->
  let b1 := Method.exec (update_position t1) b in
  Method.outcome (update_position t1) b = Return tt /\
  Method.outcome (update_position t2) b1 = Return tt /\
  Method.outcome (update_position (t1 + t2)) b = Return tt /\
  angle (Method.exec (update_position t2) b1) =
    angle (Method.exec (update_position (t1 + t2)) b).
Proof.
  intros Hpos b1.
  assert (Hb : orbital_period b <> 0) by lra.
  assert (Hb1 : orbital_period b1 <> 0).
  { unfold b1. rewrite update_position_keeps_period. exact Hb. }
  unfold Method.outcome, Method.exec.
  rewrite (update_position_returns b1 t2 Hb1).
  rewrite (update_position_returns b (t1 + t2) Hb).
  unfold b1, Method.exec.
  rewrite (update_position_returns b t1 Hb).
  unfold angular_velocity. cbn [fst snd angle orbital_period set_angle].
  repeat split.
  rewrite wrap_plus_wrap. f_equal. ring.
Qed.




(** C10: in the system as constructed the Sun is not one of [bodies] and
    every body has a positive period; after any sequence of calls of
    [update] this is still so, the next call returns without raising
    [ZeroDivisionError], and the [sun] attribute is the Sun as created, at
    angle 0 and position (0, 0). *)
Theorem C10_update_never_divides_by_zero (steps : list R) (time_step : R) :
  let s := updates steps SolarSystem_init in
  let s' := Method.exec (update time_step) s in
  sun SolarSystem_init = Sun /\
  ~ In Sun (bodies SolarSystem_init) /\
  Forall (fun b => 0 < orbital_period b) (bodies SolarSystem_init) /\
  Forall (fun b => 0 < orbital_period b) (bodies s) /\
  Method.outcome (update time_step) s = Return tt /\
  sun s' = Sun /\
  angle (sun s') = 0 /\
  get_position (sun s') = (0, 0).
Proof.
  intros s s'.
  pose proof planets_have_positive_periods as Hinit.
  assert (Hs : Forall (fun b => 0 < orbital_period b) (bodies s))
    by (apply updates_keep_periods, Hinit).
  assert (Hsun : sun s' = Sun).
  { unfold s', s. rewrite update_keeps_sun, updates_keep_sun. reflexivity. }
  split; [reflexivity |]. split; [| split; [exact Hinit | split; [exact Hs |]]].
  - intros Hin. rewrite Forall_forall in Hinit.
    specialize (Hinit Sun Hin). cbn in Hinit. lra.
  - split; [| split; [exact Hsun |]].
    + unfold Method.outcome. rewrite update_returns; [reflexivity |].
      eapply Forall_impl; [| exact Hs]. cbn. intros b Hb. lra.
    + rewrite Hsun. split; [reflexivity |].
      unfold get_position. cbn [distance angle Sun CelestialBody_init].
      now rewrite !Rmult_0_l.
Qed.

(** *** Half a year of the Earth *)

Lemma PI_gt_3 : 3 < PI.
Proof. pose proof PI2_3_2. lra. Qed.

Lemma sin_cubic_lower (a : R) : 0 <= a <= 4 -> a - a ^ 3 / 6 <= sin a.
Proof.
  intros [Hlo Hhi].
  destruct (pre_sin_bound a 0 Hlo Hhi) as [Hlb _].
  unfold sin_approx, sin_term in Hlb. cbn in Hlb. lra.
Qed.

Lemma cos_quadratic_lower (a : R) : -2 <= a <= 2 -> 1 - a ^ 2 / 2 <= cos a.
Proof.
  intros [Hlo Hhi].
  destruct (pre_cos_bound a 0 Hlo Hhi) as [Hlb _].
  unfold cos_approx, cos_term in Hlb. cbn in Hlb. lra.
Qed.

Lemma small_angle (d : R) :
  3 / 1461 < d <= 4 / 1461 ->
  0.002 < sin d < 0.00274 /\ 1 - 0.000004 < cos d <= 1.
Proof.
  intros [Hlo Hhi].
  pose proof (sin_cubic_lower d ltac:(lra)) as Hs.
  pose proof (cos_quadratic_lower d ltac:(lra)) as Hc.
  pose proof (sin_lt_x d ltac:(lra)) as Hsx.
  pose proof (COS_bound d) as [_ Hc1].
  assert (Hd2 : d ^ 2 <= (4 / 1461) ^ 2) by (apply pow_incr; lra).
  assert (Hd3 : d ^ 3 <= (4 / 1461) ^ 2 * d).
  { replace (d ^ 3) with (d ^ 2 * d) by ring. apply Rmult_le_compat_r; lra. }
  repeat split; lra.
Qed.

Lemma Earth_half_year :
  update_position 182.5 Earth = (Return tt, set_angle (PI - PI / 1461) Earth).
Proof.
  rewrite update_position_returns by (cbn; lra).
  unfold angular_velocity. cbn [angle orbital_period Earth CelestialBody_init].
  replace (0 + 2 * PI / 365.25 * 182.5) with (PI - PI / 1461) by lra.
  rewrite wrap_small; [reflexivity |].
  pose proof PI_gt_3. pose proof PI_4. lra.
Qed.

Lemma Earth_half_year_position :
  get_position (set_angle (PI - PI / 1461) Earth) =
    (1.0 * - cos (PI / 1461), 1.0 * sin (PI / 1461)).
Proof.
  unfold get_position. cbn [distance angle set_angle Earth CelestialBody_init].
  now rewrite Rtrigo_facts.cos_pi_minus, sin_PI_x.
Qed.

Lemma PI_1461_bounds : 3 / 1461 < PI / 1461 <= 4 / 1461.
Proof. pose proof PI_gt_3. pose proof PI_4. lra. Qed.

(** C8, as the code has it: 182.5 days are not half of 365.25, so the Earth
    stops [pi / 1461] short of the half turn.  The call returns with angle
    [pi - pi / 1461]; that is within 0.003 of [pi], and the position is
    within 0.003 of (-1, 0): x is within 0.000004 of -1 and y lies between
    0.002 and 0.00274.  The Earth is the third of [bodies], and
    [SolarSystem.update] leaves it in that state. *)
Theorem C8_Earth_after_182_5_days :
  let e := Method.exec (update_position 182.5) Earth in
  angle Earth = 0 /\ distance Earth = 1.0 /\ orbital_period Earth = 365.25 /\
  Method.outcome (update_position 182.5) Earth = Return tt /\
  angle e = PI - PI / 1461 /\
  Rabs (angle e - PI) < 0.003 /\
  position_within 0.003 (get_position e) (-1.0, 0.0) /\
  Rabs (fst (get_position e) - -1.0) < 0.000004 /\
  0.002 < snd (get_position e) < 0.00274 /\
  nth_error (bodies (Method.exec (update 182.5) SolarSystem_init)) 2 = Some e.
Proof.
  intros e. unfold e, Method.outcome, Method.exec.
  assert (Hsys : nth_error (bodies (snd (update 182.5 SolarSystem_init))) 2
                 = Some (snd (update_position 182.5 Earth))).
  { rewrite update_returns; [reflexivity |].
    eapply Forall_impl; [| exact planets_have_positive_periods].
    cbn. intros b Hb. lra. }
  rewrite Earth_half_year in *. cbn [fst snd].
  rewrite Earth_half_year_position. cbn [fst snd angle set_angle].
  destruct (small_angle _ PI_1461_bounds) as [[Hs1 Hs2] [Hc1 Hc2]].
  pose proof PI_1461_bounds as [Hd1 Hd2].
  unfold position_within. cbn [fst snd].
  repeat split; try reflexivity; try exact Hsys;
    try (apply Rabs_def1; lra); lra.
Qed.

(** C8 as stated fails: the angle is more than 0.002 away from [pi] and the
    y coordinate more than 0.002 away from 0, far outside a tolerance of
    1e-9. *)
Lemma C8_counterexample :
  let e := Method.exec (update_position 182.5) Earth in
  0.002 < Rabs (angle e - PI) /\
  0.002 < Rabs (snd (get_position e) - 0.0) /\
  ~ (Rabs (angle e - PI) < 1e-9 /\
     position_within 1e-9 (get_position e) (-1.0, 0.0)).
Proof.
  intros e. unfold e, Method.exec. rewrite Earth_half_year. cbn [snd].
  rewrite Earth_half_year_position. cbn [fst snd angle set_angle].
  destruct (small_angle _ PI_1461_bounds) as [[Hs1 Hs2] _].
  pose proof PI_1461_bounds as [Hd1 Hd2].
  assert (Ha : 0.002 < Rabs (PI - PI / 1461 - PI)).
  { rewrite Rabs_left; lra. }
  split; [exact Ha |]. split.
  - rewrite Rabs_right; lra.
  - intros [Hclose _]. lra.
Qed.

(** *** Concrete runs *)

Lemma retrograde_one_day :
  update_position 1 retrograde = (Return tt, set_angle (3 * PI / 2) retrograde).
Proof.
  rewrite update_position_returns by (cbn; lra).
  unfold angular_velocity. cbn [angle orbital_period retrograde CelestialBody_init].
  replace (0 + 2 * PI / -4 * 1) with (3 * PI / 2 + IZR (-1) * (2 * PI)) by field.
  rewrite wrap_plus_turns, wrap_small; [reflexivity |].
  pose proof PI_RGT_0. lra.
Qed.

(** C2 as stated fails: the Sun has period 0 and [update_position] raises
    [ZeroDivisionError] on it; a body with period -4 is not skipped, its
    angle goes from 0 to [3 * pi / 2] in one day. *)
Lemma C2_counterexample :
  orbital_period Sun <= 0 /\
  Method.outcome (update_position 1) Sun = Raise ZeroDivisionError /\
  orbital_period retrograde <= 0 /\
  angle retrograde = 0 /\
  Method.outcome (update_position 1) retrograde = Return tt /\
  angle (Method.exec (update_position 1) retrograde) = 3 * PI / 2 /\
  angle (Method.exec (update_position 1) retrograde) <> angle retrograde.
Proof.
  unfold Method.outcome, Method.exec.
  rewrite retrograde_one_day, update_position_raises by reflexivity.
  cbn. pose proof PI_RGT_0. repeat split; lra.
Qed.

Lemma C2_witness :
  orbital_period Sun = 0 /\
  update_position 1 Sun = (Raise ZeroDivisionError, Sun).
Proof.
  assert (H : orbital_period Sun = 0) by reflexivity.
  split; [exact H |].
  apply (C2_update_position_has_no_period_guard Sun 1). exact H.
Defined.

Lemma C6_witness :
  0 < orbital_period Earth /\
  angle (Method.exec (update_position 82.5)
           (Method.exec (update_position 100) Earth)) =
    angle (Method.exec (update_position (100 + 82.5)) Earth).
Proof.
  assert (H : 0 < orbital_period Earth) by (simpl; lra).
  split; [exact H |].
  apply (C6_update_position_additive Earth 100 82.5 H).
Defined.

(** C6 as stated fails in the program: computed in binary64, the Earth
    advanced by 30 and then by 335 days ends at the angle
    6.278884701219847, advanced once by 365 days at 6.278884701219846.  All
    three calls return, and the two angles differ, by less than 1e-15. *)
Lemma C6_counterexample :
  let b1 := Method.exec (Binary64.update_position 30) Binary64.Earth in
  let b2 := Method.exec (Binary64.update_position 335) b1 in
  let b := Method.exec (Binary64.update_position (30 + 335)) Binary64.Earth in
  Binary64.lt 0 (Binary64.orbital_period Binary64.Earth) /\
  Method.outcome (Binary64.update_position 30) Binary64.Earth = Return tt /\
  Method.outcome (Binary64.update_position 335) b1 = Return tt /\
  Method.outcome (Binary64.update_position (30 + 335)) Binary64.Earth = Return tt /\
  Binary64.angle b2 = 6.278884701219847%float /\
  Binary64.angle b = 6.278884701219846%float /\
  ~ Binary64.eq (Binary64.angle b2) (Binary64.angle b) /\
  Binary64.lt (abs (Binary64.angle b2 - Binary64.angle b)) 1e-15.
Proof.
  repeat split; try (vm_compute; reflexivity).
  vm_compute. discriminate.
Qed.



(** ** [BinaryStarSystem.__init__] *)

Lemma BinaryStarSystem_init_returns (m1 m2 a p : R) :
  m1 <> 0 -> m1 + m2 <> 0 -> p <> 0 ->
  BinaryStarSystem_init m1 m2 a p =
    Return {| mass1 := m1; mass2 := m2; semi_major_axis := a; period := p;
              total_mass := m1 + m2; mass_ratio := m2 / m1;
              r1 := a * m2 / (m1 + m2); r2 := a * m1 / (m1 + m2);
              omega := 2 * PI / p;
              v1 := a * m2 / (m1 + m2) * (2 * PI / p);
              v2 := a * m1 / (m1 + m2) * (2 * PI / p);
              v1_kms := a * m2 / (m1 + m2) * (2 * PI / p) * 1731.5;
              v2_kms := a * m1 / (m1 + m2) * (2 * PI / p) * 1731.5 |}.
Proof.
  intros Hm1 Htot Hp. unfold BinaryStarSystem_init.
  rewrite (truediv_nonzero _ _ Hm1). cbn [Py.bind].
  rewrite !(truediv_nonzero _ _ Htot). cbn [Py.bind].
  rewrite (truediv_nonzero _ _ Hp). reflexivity.
Qed.

Lemma BinaryStarSystem_init_raises (m1 m2 a p : R) :
  m1 = 0 \/ m1 + m2 = 0 \/ p = 0 ->
  BinaryStarSystem_init m1 m2 a p = Raise ZeroDivisionError.
Proof.
  intros H. unfold BinaryStarSystem_init, truediv.
  destruct (Req_dec_T m1 0) as [| Hm1]; [reflexivity |]. cbn [Py.bind].
  destruct (Req_dec_T (m1 + m2) 0) as [| Htot]; [reflexivity |]. cbn [Py.bind].
  destruct (Req_dec_T p 0) as [| Hp]; [reflexivity |].
  destruct H as [H | [H | H]]; contradiction.
Qed.

Lemma valid_parameters_nonzero (m1 m2 a p : R) :
  valid_parameters m1 m2 a p -> m1 <> 0 /\ m1 + m2 <> 0 /\ p <> 0.
Proof. intros (H1 & H2 & _ & Hp). repeat split; lra. Qed.






(** ** Properties of the binary star system *)

(** C1, as the code has it: the constructor validates nothing.  It returns
    whenever [mass1], [mass1 + mass2] and [period] are not zero, so for all
    strictly positive arguments but also for negative ones and for any
    [semi_major_axis]; the object stores the four arguments as given (no
    clamping) and the derived quantities.  Otherwise the first division by
    zero raises [ZeroDivisionError]. *)
Theorem C1_init_validates_nothing (m1 m2 a p : R) :
  (valid_parameters m1 m2 a p ->
     exists s, BinaryStarSystem_init m1 m2 a p = Return s) /\
  (m1 <> 0 /\ m1 + m2 <> 0 /\ p <> 0 ->
     exists s,
       BinaryStarSystem_init m1 m2 a p = Return s /\
       mass1 s = m1 /\ mass2 s = m2 /\ semi_major_axis s = a /\ period s = p /\
       total_mass s = m1 + m2 /\ mass_ratio s = m2 / m1 /\
       r1 s = a * m2 / (m1 + m2) /\ r2 s = a * m1 / (m1 + m2) /\
       omega s = 2 * PI / p /\
       v1 s = r1 s * omega s /\ v2 s = r2 s * omega s /\
       v1_kms s = v1 s * 1731.5 /\ v2_kms s = v2 s * 1731.5) /\
  (m1 = 0 \/ m1 + m2 = 0 \/ p = 0 ->
     BinaryStarSystem_init m1 m2 a p = Raise ZeroDivisionError).
Proof.
  split; [| split].
  - intros Hv. destruct (valid_parameters_nonzero _ _ _ _ Hv) as (H1 & H2 & H3).
    eexists. apply BinaryStarSystem_init_returns; assumption.
  - intros (H1 & H2 & H3). eexists. split.
    + apply BinaryStarSystem_init_returns; assumption.
    + cbn. repeat split.
  - apply BinaryStarSystem_init_raises.
Qed.

(** C1 as stated fails: a negative semi-major axis is accepted, and the
    radii come out negative. *)
Lemma C1_counterexample :
  ~ valid_parameters 1.5 1.0 (-5.0) 365.0 /\
  exists s,
    BinaryStarSystem_init 1.5 1.0 (-5.0) 365.0 = Return s /\
    semi_major_axis s = -5.0 /\ r1 s = -2 /\ r2 s = -3.
Proof.
  split.
  - unfold valid_parameters. lra.
  - eexists. split.
    + apply BinaryStarSystem_init_returns; lra.
    + cbn. repeat split; lra.
Qed.

Lemma C1_witness :
  valid_parameters 1.5 1.0 5.0 365.0 /\
  exists s, BinaryStarSystem_init 1.5 1.0 5.0 365.0 = Return s.
Proof.
  assert (H : valid_parameters 1.5 1.0 5.0 365.0)
    by (unfold valid_parameters; lra).
  split; [exact H |].
  apply (C1_init_validates_nothing 1.5 1.0 5.0 365.0). exact H.
Defined.







(** C5, as the code has it: for a positive rest wavelength [w] the call
    returns [w * (1 + rv / 299792.458)]; that is [w] for [rv = 0], at least
    [w] for [rv >= 0] and at most [w] for [rv <= 0]. *)
Theorem C5_doppler_shift (self : BinaryStarSystem) (rv w : R) :
  0 < w ->
  exists shifted,
    calculate_doppler_shift self rv w = Return shifted /\
    shifted = w * (1 + rv / 299792.458) /\
    (rv = 0 -> shifted = w) /\
    (0 <= rv -> w <= shifted) /\
    (rv <= 0 -> shifted <= w).
Proof.
  intros Hw. assert (Hc : 0 < 299792.458) by lra.
  eexists. split.
  { unfold calculate_doppler_shift. rewrite truediv_nonzero by lra. reflexivity. }
  split; [reflexivity |].
  rewrite Rmult_plus_distr_l, Rmult_1_r. repeat split.
  - intros ->. unfold Rdiv. rewrite Rmult_0_l, Rmult_0_r. lra.
  - intros Hrv.
    assert (0 <= w * (rv / 299792.458)).
    { apply Rmult_le_pos; [lra |]. apply Rmult_le_pos; [exact Hrv |].
      left. now apply Rinv_0_lt_compat. }
    lra.
  - intros Hrv.
    assert (0 <= w * (- rv / 299792.458)).
    { apply Rmult_le_pos; [lra |]. apply Rmult_le_pos; [lra |].
      left. now apply Rinv_0_lt_compat. }
    replace (w * (rv / 299792.458)) with (- (w * (- rv / 299792.458)))
      by (unfold Rdiv; ring).
    lra.
Qed.

(** C5 as stated fails in the program: computed in binary64,
    [1 + 1e-20 / 299792.458] is 1, so for the positive velocity 1e-20 and
    the negative velocity -1e-20 the call returns the rest wavelength 656.3
    itself, neither a longer nor a shorter one. *)
Lemma C5_counterexample :
  Binary64.lt 0 1e-20 /\
  Binary64.lt (-1e-20) 0 /\
  Binary64.calculate_doppler_shift 1e-20 656.3 = Return 656.3%float /\
  Binary64.calculate_doppler_shift (-1e-20) 656.3 = Return 656.3%float /\
  ~ Binary64.lt 656.3 656.3.
Proof.
  repeat split; try (vm_compute; reflexivity).
  vm_compute. discriminate.
Qed.

Lemma C5_witness :
  0 < wavelength_default /\
  exists s shifted,
    BinaryStarSystem_init 1.0 1.0 5.0 365.0 = Return s /\
    calculate_doppler_shift s 100.0 wavelength_default = Return shifted /\
    wavelength_default <= shifted.
Proof.
  assert (H : 0 < wavelength_default) by (unfold wavelength_default; lra).
  split; [exact H |].
  eexists.
  destruct (C5_doppler_shift
              {| mass1 := 1.0; mass2 := 1.0; semi_major_axis := 5.0;
                 period := 365.0; total_mass := 1.0 + 1.0;
                 mass_ratio := 1.0 / 1.0;
                 r1 := 5.0 * 1.0 / (1.0 + 1.0); r2 := 5.0 * 1.0 / (1.0 + 1.0);
                 omega := 2 * PI / 365.0;
                 v1 := 5.0 * 1.0 / (1.0 + 1.0) * (2 * PI / 365.0);
                 v2 := 5.0 * 1.0 / (1.0 + 1.0) * (2 * PI / 365.0);
                 v1_kms := 5.0 * 1.0 / (1.0 + 1.0) * (2 * PI / 365.0) * 1731.5;
                 v2_kms := 5.0 * 1.0 / (1.0 + 1.0) * (2 * PI / 365.0) * 1731.5 |}
              100.0 wavelength_default H)
    as (shifted & Hs & _ & _ & Hred & _).
  exists shifted. split; [| split; [exact Hs | apply Hred; lra]].
  apply BinaryStarSystem_init_returns; lra.
Defined.

(** ** The cases of test_binary_star_simulator.py *)

Example test_orbital_radii :
  exists s,
    BinaryStarSystem_init 1.5 1.0 5.0 365.0 = Return s /\
    r1 s = 2.0 /\ r2 s = 3.0 /\ r1 s + r2 s = semi_major_axis s.
Proof.
  eexists. split; [apply BinaryStarSystem_init_returns; lra |].
  cbn. repeat split; lra.
Qed.

Example test_center_of_mass :
  exists s,
    BinaryStarSystem_init 2.0 1.0 6.0 500.0 = Return s /\
    mass1 s * r1 s = 4 /\ mass2 s * r2 s = 4.
Proof.
  eexists. split; [apply BinaryStarSystem_init_returns; lra |].
  cbn. repeat split; lra.
Qed.

Example test_position_calculation :
  exists s,
    BinaryStarSystem_init 1.0 1.0 4.0 365.0 = Return s /\
    calculate_positions s 0.0 = (r1 s * 1, r1 s * 0, - r2 s * 1, - r2 s * 0).
Proof.
  eexists. split; [apply BinaryStarSystem_init_returns; lra |].
  unfold calculate_positions.
  replace (omega _ * 0.0) with 0 by lra.
  now rewrite cos_0, sin_0.
Qed.

Example test_equal_mass_system :
  exists s,
    BinaryStarSystem_init 1.0 1.0 10.0 500.0 = Return s /\
    r1 s = r2 s /\ v1_kms s = v2_kms s.
Proof.
  eexists. split; [apply BinaryStarSystem_init_returns; lra |].
  cbn. split; reflexivity.
Qed.

(** ** Further properties of the binary star system *)











(** [calculate_doppler_shift] never raises, and for a rest wavelength that
    is not negative a larger radial velocity never gives a shorter
    wavelength. *)
Theorem doppler_shift_monotone (self : BinaryStarSystem) (rv rv' w : R) :
  0 <= w -> rv <= rv' ->
  exists shifted shifted',
    calculate_doppler_shift self rv w = Return shifted /\
    calculate_doppler_shift self rv' w = Return shifted' /\
    shifted <= shifted'.
Proof.
  intros Hw Hrv. assert (Hc : 0 < 299792.458) by lra.
  unfold calculate_doppler_shift. rewrite !truediv_nonzero by lra. cbn [Py.bind].
  do 2 eexists. split; [reflexivity |]. split; [reflexivity |].
  apply Rmult_le_compat_l; [exact Hw |].
  apply Rplus_le_compat_l. unfold Rdiv.
  apply Rmult_le_compat_r; [| exact Hrv].
  left. now apply Rinv_0_lt_compat.
Qed.

Lemma doppler_shift_monotone_witness :
  0 <= wavelength_default /\ -100.0 <= 100.0 /\
  exists s shifted shifted',
    BinaryStarSystem_init 1.0 1.0 5.0 365.0 = Return s /\
    calculate_doppler_shift s (-100.0) wavelength_default = Return shifted /\
    calculate_doppler_shift s 100.0 wavelength_default = Return shifted' /\
    shifted <= shifted'.
Proof.
  assert (H : 0 <= wavelength_default) by (unfold wavelength_default; lra).
  assert (H' : -100.0 <= 100.0) by lra.
  split; [exact H |]. split; [exact H' |].
  eexists.
  destruct (doppler_shift_monotone
              {| mass1 := 1.0; mass2 := 1.0; semi_major_axis := 5.0;
                 period := 365.0; total_mass := 1.0 + 1.0;
                 mass_ratio := 1.0 / 1.0;
                 r1 := 5.0 * 1.0 / (1.0 + 1.0); r2 := 5.0 * 1.0 / (1.0 + 1.0);
                 omega := 2 * PI / 365.0;
                 v1 := 5.0 * 1.0 / (1.0 + 1.0) * (2 * PI / 365.0);
                 v2 := 5.0 * 1.0 / (1.0 + 1.0) * (2 * PI / 365.0);
                 v1_kms := 5.0 * 1.0 / (1.0 + 1.0) * (2 * PI / 365.0) * 1731.5;
                 v2_kms := 5.0 * 1.0 / (1.0 + 1.0) * (2 * PI / 365.0) * 1731.5 |}
              (-100.0) 100.0 wavelength_default H H')
    as (shifted & shifted' & Hs & Hs' & Hle).
  exists shifted, shifted'.
  split; [apply BinaryStarSystem_init_returns; lra |].
  split; [exact Hs |]. split; [exact Hs' | exact Hle].
Defined.

(** *** The simulated spectrum *)




(** ** Further properties of the solar system *)

Lemma update_position_exec (b : CelestialBody) (time_step : R) :
  orbital_period b <> 0 ->
  Method.exec (update_position time_step) b
    = set_angle (wrap (angle b + angular_velocity b * time_step)) b.
Proof.
  intros Hp. unfold Method.exec. now rewrite update_position_returns.
Qed.

Lemma update_position_orbit (b : CelestialBody) (time_step : R) :
  orbit_of (Method.exec (update_position time_step) b) = orbit_of b.
Proof.
  destruct (Req_dec_T (orbital_period b) 0) as [H0 | Hn].
  - unfold Method.exec. now rewrite update_position_raises.
  - now rewrite update_position_exec.
Qed.

Lemma for_each_orbits (time_step : R) (l : list CelestialBody) :
  map orbit_of (snd (Method.for_each (update_position time_step) l))
    = map orbit_of l.
Proof.
  induction l as [| b l IH]; [reflexivity |].
  cbn [Method.for_each].
  destruct (Req_dec_T (orbital_period b) 0) as [H0 | Hn].
  - rewrite (update_position_raises _ _ H0). reflexivity.
  - rewrite (update_position_returns _ _ Hn).
    destruct (Method.for_each (update_position time_step) l) as [r rest'].
    cbn [snd map] in *. now rewrite IH.
Qed.

Lemma for_each_stops_at_zero_period (time_step : R)
    (l1 : list CelestialBody) (b0 : CelestialBody) (l2 : list CelestialBody) :
  Forall (fun b => orbital_period b <> 0) l1 ->
  orbital_period b0 = 0 ->
  Method.for_each (update_position time_step) (l1 ++ b0 :: l2)
    = (Raise ZeroDivisionError,
       map (Method.exec (update_position time_step)) l1 ++ b0 :: l2).
Proof.
  intros Hl1 H0. induction Hl1 as [| b l1 Hb _ IH].
  - cbn [app map Method.for_each]. now rewrite (update_position_raises _ _ H0).
  - cbn [app Method.for_each map].
    rewrite (update_position_exec _ _ Hb).
    rewrite (update_position_returns _ _ Hb), IH. reflexivity.
Qed.

Lemma get_velocity_raises_iff (b : CelestialBody) :
  get_velocity b = Raise ZeroDivisionError <-> orbital_period b = 0.
Proof.
  unfold get_velocity. split.
  - intros Hr. destruct (Req_dec_T (orbital_period b) 0) as [H0 | Hn]; [exact H0 |].
    rewrite truediv_nonzero in Hr; [discriminate |].
    intros Hz. apply Hn. lra.
  - intros H0. rewrite H0.
    replace (0 * 24 * 3600) with 0 by ring. now rewrite truediv_zero.
Qed.

Lemma update_orbits (s : SolarSystem) (time_step : R) :
  map orbit_of (bodies (Method.exec (update time_step) s)) = map orbit_of (bodies s).
Proof.
  pose proof (for_each_orbits time_step (bodies s)) as Ho.
  unfold Method.exec, update, Method.bind, Method.zoom, Method.get, Method.modify.
  destruct (Method.for_each (update_position time_step) (bodies s)) as [[[] | e] l'];
    exact Ho.
Qed.

(** The speed [get_velocity] reports does not depend on where the body is on
    its orbit: it is the same before and after [update_position], whatever
    the time step.  The call raises [ZeroDivisionError] exactly for a body
    whose period is zero. *)
Theorem get_velocity_ignores_position (b : CelestialBody) (time_step : R) :
  get_velocity (Method.exec (update_position time_step) b) = get_velocity b /\
  (get_velocity b = Raise ZeroDivisionError <-> orbital_period b = 0).
Proof.
  split.
  - pose proof (update_position_orbit b time_step) as Ho.
    unfold orbit_of in Ho. injection Ho as _ _ Hd Hp _ _.
    unfold get_velocity. now rewrite Hd, Hp.
  - apply get_velocity_raises_iff.
Qed.

(** [SolarSystem.update] changes nothing but angles and the clock: the names,
    masses, distances, periods, radii and colours of the bodies, their order
    and the [sun] are the same after the call, also when it raises. *)
Theorem update_changes_only_angles (s : SolarSystem) (time_step : R) :
  map orbit_of (bodies (Method.exec (update time_step) s)) = map orbit_of (bodies s) /\
  sun (Method.exec (update time_step) s) = sun s.
Proof.
  split; [apply update_orbits | apply update_keeps_sun].
Qed.

(** A failing [update] is not undone: when the first body with a period of
    zero comes after bodies that can move, the call raises
    [ZeroDivisionError] having advanced those bodies, and leaves the
    zero-period body, the bodies after it and [time_elapsed] untouched. *)
Theorem update_fails_half_way (time_step : R)
    (l1 : list CelestialBody) (b0 : CelestialBody) (l2 : list CelestialBody)
    (elapsed : R) (star : CelestialBody) :
  Forall (fun b => orbital_period b <> 0) l1 ->
  orbital_period b0 = 0 ->
  update time_step {| bodies := l1 ++ b0 :: l2; time_elapsed := elapsed; sun := star |}
    = (Raise ZeroDivisionError,
       {| bodies := map (Method.exec (update_position time_step)) l1 ++ b0 :: l2;
          time_elapsed := elapsed; sun := star |}).
Proof.
  intros Hl1 H0.
  unfold update, Method.bind, Method.zoom. cbn [bodies].
  now rewrite (for_each_stops_at_zero_period _ _ _ _ Hl1 H0).
Qed.

Lemma update_fails_half_way_witness :
  Forall (fun b => orbital_period b <> 0) [Earth] /\
  orbital_period Sun = 0 /\
  update 182.5 {| bodies := [Earth] ++ Sun :: [Mars]; time_elapsed := 0; sun := Sun |}
    = (Raise ZeroDivisionError,
       {| bodies := map (Method.exec (update_position 182.5)) [Earth] ++ Sun :: [Mars];
          time_elapsed := 0; sun := Sun |}).
Proof.
  assert (H1 : Forall (fun b => orbital_period b <> 0) [Earth]).
  { repeat constructor. cbn. lra. }
  assert (H0 : orbital_period Sun = 0) by reflexivity.
  split; [exact H1 |]. split; [exact H0 |].
  apply (update_fails_half_way 182.5 [Earth] Sun [Mars] 0 Sun H1 H0).
Defined.

(** *** The system the program runs *)

Lemma same_orbits_Forall (P : CelestialBody -> Prop) :
  (forall b b', orbit_of b = orbit_of b' -> P b -> P b') ->
  forall l l' : list CelestialBody,
    map orbit_of l' = map orbit_of l -> Forall P l -> Forall P l'.
Proof.
  intros HP l. induction l as [| b l IH]; intros [| b' l'] Hmap Hl;
    try discriminate; constructor; cbn [map] in Hmap.
  - assert (Hb : orbit_of b = orbit_of b') by congruence.
    inversion Hl; subst. now apply (HP b b').
  - assert (Hrest : map orbit_of l' = map orbit_of l) by congruence.
    inversion Hl; subst. now apply IH.
Qed.

Lemma updates_orbits (steps : list R) :
  forall s : SolarSystem,
    map orbit_of (bodies (updates steps s)) = map orbit_of (bodies s).
Proof.
  induction steps as [| time_step steps IH]; intros s; [reflexivity |].
  cbn [updates fold_left]. fold (updates steps (Method.exec (update time_step) s)).
  rewrite IH. apply update_orbits.
Qed.

Lemma update_keeps_angles_wrapped (s : SolarSystem) (time_step : R) :
  angles_wrapped s -> angles_wrapped (Method.exec (update time_step) s).
Proof.
  unfold angles_wrapped. intros Ha.
  unfold Method.exec, update, Method.bind, Method.zoom, Method.get, Method.modify.
  assert (Hl : Forall (fun b => 0 <= angle b < 2 * PI)
                 (snd (Method.for_each (update_position time_step) (bodies s)))).
  { induction Ha as [| b l Hb Hl IH]; [constructor |].
    cbn [Method.for_each].
    pose proof (update_position_angle_range b time_step Hb) as Hb'.
    unfold Method.exec in Hb'.
    destruct (update_position time_step b) as [[[] | e] b']; cbn [snd] in *.
    - destruct (Method.for_each (update_position time_step) l) as [r rest'].
      cbn [snd] in *. now constructor.
    - now constructor. }
  destruct (Method.for_each (update_position time_step) (bodies s)) as [[[] | e] l'];
    exact Hl.
Qed.

Lemma updates_keep_angles_wrapped (steps : list R) :
  forall s : SolarSystem, angles_wrapped s -> angles_wrapped (updates steps s).
Proof.
  induction steps as [| time_step steps IH]; intros s Hs; [exact Hs |].
  apply IH, update_keeps_angles_wrapped, Hs.
Qed.

Lemma planets_have_positive_distances :
  Forall (fun b => 0 < distance b /\ 0 < orbital_period b) (bodies SolarSystem_init).
Proof.
  unfold SolarSystem_init, setup_solar_system. cbn [bodies app].
  repeat constructor; cbn; lra.
Qed.

Lemma get_velocity_positive (b : CelestialBody) :
  0 < distance b -> 0 < orbital_period b ->
  exists v, get_velocity b = Return v /\ 0 < v.
Proof.
  intros Hd Hp. pose proof PI_RGT_0 as Hpi. unfold get_velocity.
  assert (Hs : 0 < orbital_period b * 24 * 3600) by lra.
  rewrite truediv_nonzero by lra. cbn [Py.bind].
  eexists. split; [reflexivity |].
  apply Rdiv_lt_0_compat; [| exact Hs].
  apply Rmult_lt_0_compat; lra.
Qed.

(** In the system the program builds, after any sequence of calls of
    [update] (returning or raising), every body of [bodies] has its angle
    between 0 and [2 * pi], both included, and a speed that [get_velocity],
    as [display_info] calls it, returns without an exception and that is
    positive; on the [sun] itself [get_velocity] raises
    [ZeroDivisionError]. *)
Theorem running_system_is_sound (steps : list R) :
  let s := updates steps SolarSystem_init in
  angles_within_turn s /\
  Forall (fun b => exists v, get_velocity b = Return v /\ 0 < v) (bodies s) /\
  get_velocity (sun s) = Raise ZeroDivisionError.
Proof.
  intros s. split; [| split].
  - assert (Hw : angles_wrapped s).
    { apply updates_keep_angles_wrapped. unfold angles_wrapped.
      pose proof PI_RGT_0. cbn. repeat constructor; cbn; lra. }
    unfold angles_within_turn. eapply Forall_impl; [| exact Hw].
    cbn. intros b Hb. lra.
  - assert (Hpos : Forall (fun b => 0 < distance b /\ 0 < orbital_period b) (bodies s)).
    { apply (same_orbits_Forall _) with (l := bodies SolarSystem_init).
      - intros b b' Ho [Hd Hp]. unfold orbit_of in Ho.
        injection Ho as _ _ Hd' Hp' _ _. now rewrite <- Hd', <- Hp'.
      - apply updates_orbits.
      - apply planets_have_positive_distances. }
    eapply Forall_impl; [| exact Hpos]. cbn.
    intros b [Hd Hp]. now apply get_velocity_positive.
  - unfold s. rewrite updates_keep_sun. cbn [sun SolarSystem_init setup_solar_system].
    now apply get_velocity_raises_iff.
Qed.

(** *** The menu loop *)

Lemma choice_days_nonneg (choice : string) : 0 <= choice_days choice.
Proof.
  unfold choice_days.
  repeat match goal with |- context [if ?c then _ else _] => destruct c end; lra.
Qed.

Lemma session_days_nonneg (choices : list string) : 0 <= session_days choices.
Proof.
  induction choices as [| choice rest IH]; cbn [session_days]; [lra |].
  destruct (choice =? "0")%string; [lra |].
  pose proof (choice_days_nonneg choice). lra.
Qed.

Lemma update_on_planets (s : SolarSystem) (time_step : R) :
  Forall (fun b => 0 < orbital_period b) (bodies s) ->
  Method.outcome (update time_step) s = Return tt /\
  time_elapsed (Method.exec (update time_step) s) = time_elapsed s + time_step.
Proof.
  intros Hs. unfold Method.outcome, Method.exec.
  rewrite update_returns; [now split |].
  eapply Forall_impl; [| exact Hs]. cbn. intros b Hb. lra.
Qed.

Lemma main_turn_clock (choice : string) (s : SolarSystem) :
  Forall (fun b => 0 < orbital_period b) (bodies s) ->
  Forall (fun b => 0 < orbital_period b) (bodies (state_of (main_turn choice s))) /\
  time_elapsed (state_of (main_turn choice s))
    = time_elapsed s + (if (choice =? "0")%string then 0 else choice_days choice).
Proof.
  intros Hs. unfold main_turn, choice_days.
  destruct (choice =? "0")%string; [cbn; split; [exact Hs | lra] |].
  destruct (choice =? "2")%string;
    [cbn [state_of]; split; [now apply update_keeps_periods | now apply update_on_planets] |].
  destruct (choice =? "3")%string;
    [cbn [state_of]; split; [now apply update_keeps_periods | now apply update_on_planets] |].
  destruct (choice =? "4")%string;
    [cbn [state_of]; split; [now apply update_keeps_periods | now apply update_on_planets] |].
  cbn. split; [exact Hs | lra].
Qed.

Lemma main_loop_clock (choices : list string) :
  forall s : SolarSystem,
    Forall (fun b => 0 < orbital_period b) (bodies s) ->
    Forall (fun b => 0 < orbital_period b) (bodies (state_of (main_loop choices s))) /\
    time_elapsed (state_of (main_loop choices s))
      = time_elapsed s + session_days choices.
Proof.
  induction choices as [| choice rest IH]; intros s Hs.
  - cbn. split; [exact Hs | lra].
  - destruct (main_turn_clock choice s Hs) as [Hs' Ht].
    cbn [main_loop session_days].
    unfold main_turn in *.
    destruct (choice =? "0")%string; [cbn in *; split; [exact Hs | lra] |].
    destruct (choice =? "2")%string;
      [cbn [state_of] in *; destruct (IH _ Hs') as [H1 H2]; split; [exact H1 | lra] |].
    destruct (choice =? "3")%string;
      [cbn [state_of] in *; destruct (IH _ Hs') as [H1 H2]; split; [exact H1 | lra] |].
    destruct (choice =? "4")%string;
      [cbn [state_of] in *; destruct (IH _ Hs') as [H1 H2]; split; [exact H1 | lra] |].
    cbn [state_of] in *. destruct (IH _ Hs') as [H1 H2]. split; [exact H1 | lra].
Qed.

(** In the menu loop of [main] the clock only runs forward: whatever
    choices are read, [time_elapsed] is the sum of the days of the choices
    made (1, 30 and 365 for choices 2, 3 and 4, nothing for the others, up to
    the first 0), it is never negative, no turn decreases it, and no call
    of [update] raises. *)
Theorem menu_clock_runs_forward (choices : list string) (choice : string) :
  let s := state_of (main_loop choices SolarSystem_init) in
  time_elapsed s = session_days choices /\
  0 <= time_elapsed s /\
  time_elapsed s <= time_elapsed (state_of (main_turn choice s)) /\
  (forall time_step : R, Method.outcome (update time_step) s = Return tt).
Proof.
  intros s.
  destruct (main_loop_clock choices SolarSystem_init planets_have_positive_periods)
    as [Hs Ht].
  fold s in Hs, Ht. cbn [time_elapsed SolarSystem_init setup_solar_system] in Ht.
  pose proof (session_days_nonneg choices) as Hn.
  destruct (main_turn_clock choice s Hs) as [_ Hturn].
  pose proof (choice_days_nonneg choice) as Hc.
  repeat split.
  - lra.
  - lra.
  - rewrite Hturn. destruct (choice =? "0")%string; lra.
  - intros time_step. now apply update_on_planets.
Qed.

(** ** Sequences and their indices *)

Lemma index_in_range (n : nat) (i : Z) :
  (0 <= i < Z.of_nat n)%Z -> index n i = Some (Z.to_nat i).
Proof.
  intros [Hlo Hhi]. unfold index.
  destruct (Z.leb_spec 0 i); [| lia]. destruct (Z.ltb_spec i (Z.of_nat n)); [| lia].
  reflexivity.
Qed.

Lemma index_bound (n : nat) (i : Z) (k : nat) :
  index n i = Some k -> (k < n)%nat.
Proof.
  unfold index. intros H.
  destruct (Z.leb_spec 0 i); destruct (Z.ltb_spec i (Z.of_nat n)); cbn in H;
    try (injection H as <-; lia);
    destruct (Z.leb_spec (- Z.of_nat n) i); destruct (Z.ltb_spec i 0); cbn in H;
    try discriminate; injection H as <-; lia.
Qed.


Lemma getitem_In {A} (l : list A) (i : Z) (x : A) :
  getitem l i = Some x -> In x l.
Proof.
  unfold getitem. destruct (index (List.length l) i) as [k |]; [| discriminate].
  apply nth_error_In.
Qed.

Lemma replace_nth_length {A} (k : nat) (v : A) (l : list A) :
  List.length (replace_nth k v l) = List.length l.
Proof.
  revert k. induction l as [| x l IH]; intros [| k]; cbn; try reflexivity.
  now rewrite IH.
Qed.

Lemma replace_nth_Forall {A} (P : A -> Prop) (k : nat) (v : A) (l : list A) :
  Forall P l -> P v -> Forall P (replace_nth k v l).
Proof.
  intros Hl Hv. revert k. induction Hl as [| x l Hx Hl IH]; intros [| k]; cbn;
    try constructor; auto.
Qed.

Lemma setitem_length {A} (l l' : list A) (i : Z) (v : A) :
  setitem l i v = Some l' -> List.length l' = List.length l.
Proof.
  unfold setitem. destruct (index (List.length l) i); [| discriminate].
  intros H. injection H as <-. apply replace_nth_length.
Qed.

Lemma setitem_Forall {A} (P : A -> Prop) (l l' : list A) (i : Z) (v : A) :
  setitem l i v = Some l' -> Forall P l -> P v -> Forall P l'.
Proof.
  unfold setitem. destruct (index (List.length l) i); [| discriminate].
  intros H. injection H as <-. apply replace_nth_Forall.
Qed.

Lemma setitem_in_range {A} (l : list A) (i : Z) (v : A) :
  (0 <= i < Z.of_nat (List.length l))%Z -> exists l', setitem l i v = Some l'.
Proof.
  intros Hi. unfold setitem. rewrite index_in_range by exact Hi. now eexists.
Qed.


(** ** Positions and distances *)






(** ** The grid of [display_simple_visualization] *)


Lemma in_bounds_spec (gx gy : Z) :
  in_bounds (gx, gy) = true <-> (0 <= gx < size /\ 0 <= gy < size)%Z.
Proof.
  unfold in_bounds. rewrite !andb_true_iff, !Z.leb_le, !Z.ltb_lt. tauto.
Qed.


Lemma blank_grid_square : square blank_grid.
Proof.
  unfold square, blank_grid. split.
  - apply repeat_length.
  - apply Forall_forall. intros cells Hin.
    apply repeat_spec in Hin. subst. apply repeat_length.
Qed.

Lemma blank_grid_blank :
  Forall (Forall (fun c => c = " "%char)) blank_grid.
Proof.
  unfold blank_grid. apply Forall_forall. intros cells Hin.
  apply repeat_spec in Hin. subst.
  apply Forall_forall. intros c Hc. now apply repeat_spec in Hc.
Qed.

Lemma set_cell_square (grid grid' : list (list ascii)) (row column : Z) (c : ascii) :
  set_cell grid row column c = Some grid' -> square grid -> square grid'.
Proof.
  unfold set_cell, and_then. intros Hset [Hlen Hrows].
  destruct (getitem grid row) as [cells |] eqn:Hcells; [| discriminate].
  destruct (setitem cells column c) as [cells' |] eqn:Hcells'; [| discriminate].
  split.
  - rewrite (setitem_length _ _ _ _ Hset). exact Hlen.
  - apply (setitem_Forall _ _ _ _ _ Hset Hrows).
    rewrite (setitem_length _ _ _ _ Hcells').
    rewrite Forall_forall in Hrows. apply Hrows, (getitem_In _ _ _ Hcells).
Qed.

Lemma set_cell_Forall (P : ascii -> Prop) (grid grid' : list (list ascii))
    (row column : Z) (c : ascii) :
  set_cell grid row column c = Some grid' ->
  Forall (Forall P) grid -> P c -> Forall (Forall P) grid'.
Proof.
  unfold set_cell, and_then. intros Hset Hgrid Hc.
  destruct (getitem grid row) as [cells |] eqn:Hcells; [| discriminate].
  destruct (setitem cells column c) as [cells' |] eqn:Hcells'; [| discriminate].
  apply (setitem_Forall _ _ _ _ _ Hset Hgrid).
  apply (setitem_Forall _ _ _ _ _ Hcells'); [| exact Hc].
  rewrite Forall_forall in Hgrid. apply Hgrid, (getitem_In _ _ _ Hcells).
Qed.

Lemma replace_nth_In {A} (k : nat) (v : A) (l : list A) :
  (k < List.length l)%nat -> In v (replace_nth k v l).
Proof.
  revert k. induction l as [| x l IH]; intros [| k] Hk; cbn in *; try lia.
  - now left.
  - right. apply IH. lia.
Qed.

Lemma set_cell_in_range (grid : list (list ascii)) (row column : Z) (c : ascii) :
  square grid -> (0 <= row < size)%Z -> (0 <= column < size)%Z ->
  exists grid' cells,
    set_cell grid row column c = Some grid' /\
    In cells grid' /\ In c cells.
Proof.
  intros [Hlen Hrows] Hrow Hcol.
  assert (Hsize : Z.of_nat (Z.to_nat size) = size) by reflexivity.
  assert (Hr : (0 <= row < Z.of_nat (List.length grid))%Z) by (rewrite Hlen, Hsize; exact Hrow).
  unfold set_cell, getitem, setitem.
  rewrite (index_in_range _ _ Hr).
  destruct (nth_error grid (Z.to_nat row)) as [cells |] eqn:Hcells;
    [| apply nth_error_None in Hcells; lia].
  assert (Hcl : List.length cells = Z.to_nat size).
  { rewrite Forall_forall in Hrows. apply Hrows. eapply nth_error_In, Hcells. }
  assert (Hc : (0 <= column < Z.of_nat (List.length cells))%Z)
    by (rewrite Hcl, Hsize; exact Hcol).
  cbn [and_then]. rewrite (index_in_range _ _ Hc). cbn [and_then].
  exists (replace_nth (Z.to_nat row) (replace_nth (Z.to_nat column) c cells) grid),
    (replace_nth (Z.to_nat column) c cells).
  split; [reflexivity |]. split; apply replace_nth_In; lia.
Qed.

Lemma first_letter_exists (n : string) :
  n <> ""%string -> exists c, String.get 0 n = Some c.
Proof. destruct n as [| c n]; [congruence | now exists c]. Qed.

Lemma place_square (grid grid' : list (list ascii)) (b : CelestialBody) :
  place grid b = Some grid' -> square grid -> square grid'.
Proof.
  unfold place. destruct (grid_cell b) as [gx gy].
  destruct (in_bounds (gx, gy)).
  - unfold and_then. destruct (String.get 0 (name b)); [| discriminate].
    apply set_cell_square.
  - intros H. now injection H as <-.
Qed.

Lemma place_returns (grid : list (list ascii)) (b : CelestialBody) :
  square grid -> name b <> ""%string -> exists grid', place grid b = Some grid'.
Proof.
  intros Hsq Hname. unfold place. destruct (grid_cell b) as [gx gy].
  destruct (in_bounds (gx, gy)) eqn:Hin; [| now eexists].
  apply in_bounds_spec in Hin. destruct Hin as [Hx Hy].
  destruct (first_letter_exists _ Hname) as [c Hc]. rewrite Hc. cbn [and_then].
  destruct (set_cell_in_range grid gy gx c Hsq Hy Hx) as (grid' & _ & Hset & _).
  now exists grid'.
Qed.

Lemma place_Forall (P : ascii -> Prop) (grid grid' : list (list ascii))
    (b : CelestialBody) :
  place grid b = Some grid' ->
  (forall c, String.get 0 (name b) = Some c -> P c) ->
  Forall (Forall P) grid -> Forall (Forall P) grid'.
Proof.
  unfold place. destruct (grid_cell b) as [gx gy]. intros Hplace Hc Hgrid.
  destruct (in_bounds (gx, gy)).
  - unfold and_then in Hplace.
    destruct (String.get 0 (name b)) as [c |]; [| discriminate].
    apply (set_cell_Forall _ _ _ _ _ _ Hplace Hgrid). now apply Hc.
  - now injection Hplace as <-.
Qed.

Lemma place_all_returns (l : list CelestialBody) :
  forall grid : list (list ascii),
    square grid -> Forall (fun b => name b <> ""%string) l ->
    exists grid', place_all grid l = Some grid' /\ square grid'.
Proof.
  induction l as [| b l IH]; intros grid Hsq Hnames.
  - now exists grid.
  - inversion Hnames as [| ? ? Hb Hl]; subst.
    destruct (place_returns grid b Hsq Hb) as [grid1 H1].
    cbn [place_all]. rewrite H1. cbn [and_then].
    apply IH; [apply (place_square _ _ _ H1 Hsq) | exact Hl].
Qed.

Lemma place_all_Forall (P : ascii -> Prop) (l : list CelestialBody) :
  forall grid grid' : list (list ascii),
    place_all grid l = Some grid' ->
    (forall b c, In b l -> String.get 0 (name b) = Some c -> P c) ->
    Forall (Forall P) grid -> Forall (Forall P) grid'.
Proof.
  induction l as [| b l IH]; intros grid grid' Hall Hc Hgrid.
  - now injection Hall as <-.
  - cbn [place_all] in Hall. unfold and_then in Hall.
    destruct (place grid b) as [grid1 |] eqn:H1; [| discriminate].
    apply (IH grid1 grid' Hall).
    + intros b' c Hin. apply Hc. now right.
    + apply (place_Forall _ _ _ _ H1); [| exact Hgrid].
      intros c. apply Hc. now left.
Qed.

Lemma initials_same_orbits (l : list CelestialBody) :
  forall l' : list CelestialBody,
    map orbit_of l' = map orbit_of l -> initials l' = initials l.
Proof.
  induction l as [| b l IH]; intros [| b' l'] Hmap; try discriminate; [reflexivity |].
  cbn [map] in Hmap.
  assert (Hb : orbit_of b' = orbit_of b) by congruence.
  assert (Hrest : map orbit_of l' = map orbit_of l) by congruence.
  unfold initials. cbn [flat_map]. fold (initials l') (initials l).
  rewrite (IH _ Hrest). unfold orbit_of in Hb.
  injection Hb as Hname _ _ _ _ _. now rewrite Hname.
Qed.

Lemma display_simple_visualization_returns (s : SolarSystem) :
  Forall (fun b => name b <> ""%string) (bodies s) ->
  exists grid, display_simple_visualization s = Some grid /\ square grid.
Proof.
  intros Hnames. unfold display_simple_visualization.
  destruct (set_cell_in_range blank_grid (size / 2) (size / 2) "*"%char
              blank_grid_square) as (grid0 & _ & H0 & _); [unfold size; cbn; lia .. |].
  rewrite H0. cbn [and_then].
  apply place_all_returns; [| exact Hnames].
  apply (set_cell_square _ _ _ _ _ H0 blank_grid_square).
Qed.



(** Every cell [display_simple_visualization] prints is a blank, the star
    of the Sun or the first letter of the name of one of the bodies.  For
    the system the program builds, after any calls of [update], that leaves
    the blank, the star and the letters M, V, E, J and S: Mars is drawn
    with a capital M like Mercury, never with the small m of the legend. *)
Theorem visualization_alphabet :
  (forall (s : SolarSystem) (grid : list (list ascii)),
     display_simple_visualization s = Some grid ->
     Forall (Forall (fun c => c = " "%char \/ c = "*"%char
                              \/ In c (initials (bodies s)))) grid) /\
  (forall (steps : list R) (grid : list (list ascii)),
     display_simple_visualization (updates steps SolarSystem_init) = Some grid ->
     Forall (Forall (fun c => In c [" "; "*"; "M"; "V"; "E"; "J"; "S"]%char
                              /\ c <> "m"%char)) grid).
Proof.
  assert (Hgen : forall (s : SolarSystem) (grid : list (list ascii)),
             display_simple_visualization s = Some grid ->
             Forall (Forall (fun c => c = " "%char \/ c = "*"%char
                                      \/ In c (initials (bodies s)))) grid).
  { intros s grid. unfold display_simple_visualization, and_then.
    destruct (set_cell blank_grid (size / 2) (size / 2) "*") as [grid0 |] eqn:H0;
      [| discriminate].
    intros Hall. apply (place_all_Forall _ _ _ _ Hall).
    - intros b c Hb Hc. right. right. unfold initials.
      apply in_flat_map. exists b. split; [exact Hb |]. rewrite Hc. now left.
    - apply (set_cell_Forall _ _ _ _ _ _ H0); [| now right; left].
      eapply Forall_impl; [| exact blank_grid_blank].
      intros cells Hcells. eapply Forall_impl; [| exact Hcells].
      cbn. intros c ->. now left. }
  split; [exact Hgen |].
  intros steps grid Hgrid. specialize (Hgen _ _ Hgrid).
  rewrite (initials_same_orbits _ _ (updates_orbits steps SolarSystem_init)) in Hgen.
  eapply Forall_impl; [| exact Hgen].
  intros cells Hcells. eapply Forall_impl; [| exact Hcells].
  cbn. intros c [-> | [-> | Hc]].
  - split; [tauto | discriminate].
  - split; [tauto | discriminate].
  - repeat destruct Hc as [<- | Hc]; try contradiction;
      (split; [tauto | discriminate]).
Qed.

Lemma visualization_alphabet_witness :
  exists grid,
    display_simple_visualization SolarSystem_init = Some grid /\
    Forall (Forall (fun c => c = " "%char \/ c = "*"%char
                             \/ In c (initials (bodies SolarSystem_init)))) grid.
Proof.
  destruct (display_simple_visualization_returns SolarSystem_init) as (grid & Hg & _).
  { cbn. repeat constructor; cbn; discriminate. }
  exists grid. split; [exact Hg |].
  apply (proj1 visualization_alphabet SolarSystem_init grid Hg).
Defined.



Example Saturn_starts_off_the_grid :
  grid_cell Saturn = (48%Z, 20%Z) /\ in_bounds (grid_cell Saturn) = false.
Proof.
  assert (Hc : grid_cell Saturn = (48%Z, 20%Z)).
  { unfold grid_cell, get_position.
    cbn [distance angle Saturn CelestialBody_init]. rewrite cos_0, sin_0.
    replace (IZR (size / 2)) with 20 by reflexivity.
    unfold int_.
    destruct (Rle_dec 0 (20 + 9.54 * 1 * 3)) as [_ | Hn]; [| lra].
    destruct (Rle_dec 0 (20 + 9.54 * 0 * 3)) as [_ | Hn]; [| lra].
    f_equal; apply floor_unique; simpl; lra. }
  split; [exact Hc |]. now rewrite Hc.
Qed.

(** ** The cases of test_binary_star_simulator.py on binary64 numbers *)

Example binary64_test_orbital_radii :
  exists s,
    Binary64.BinaryStarSystem_init 1.5 1.0 5.0 365.0 = Return s /\
    Binary64.r1 s = 2%float /\ Binary64.r2 s = 3%float /\
    Binary64.lt
      (abs (Binary64.r1 s + Binary64.r2 s - Binary64.semi_major_axis s)) 1e-10.
Proof.
  eexists. split; [vm_compute; reflexivity |].
  repeat split; vm_compute; reflexivity.
Qed.

Example binary64_test_center_of_mass :
  exists s,
    Binary64.BinaryStarSystem_init 2.0 1.0 6.0 500.0 = Return s /\
    Binary64.lt
      (abs (Binary64.mass1 s * Binary64.r1 s - Binary64.mass2 s * Binary64.r2 s))
      1e-10.
Proof.
  eexists. split; [vm_compute; reflexivity |]. vm_compute. reflexivity.
Qed.

Example binary64_test_doppler_shift :
  exists shifted shifted_red shifted_blue,
    Binary64.calculate_doppler_shift 0.0 656.3 = Return shifted /\
    Binary64.calculate_doppler_shift 100.0 656.3 = Return shifted_red /\
    Binary64.calculate_doppler_shift (-100.0) 656.3 = Return shifted_blue /\
    Binary64.lt (abs (shifted - 656.3)) 1e-10 /\
    Binary64.lt 656.3 shifted_red /\
    Binary64.lt shifted_blue 656.3.
Proof.
  do 3 eexists. repeat split; vm_compute; reflexivity.
Qed.

Example binary64_test_equal_mass_system :
  exists s,
    Binary64.BinaryStarSystem_init 1.0 1.0 10.0 500.0 = Return s /\
    Binary64.lt (abs (Binary64.r1 s - Binary64.r2 s)) 1e-10 /\
    Binary64.lt (abs (Binary64.v1_kms s - Binary64.v2_kms s)) 1e-10.
Proof.
  eexists. split; [vm_compute; reflexivity |].
  split; vm_compute; reflexivity.
Qed.
